(** * Verification of the quote store of [qualifier.py]

    A shallow embedding of [src/qualifier/qualifier.py]: the "uwu" text
    transform, the command dispatcher [run_command], the add-quote
    operation, the list formatter and the in-memory [Database].

    Python strings are sequences of Unicode code points; they are modelled
    as lists of code points so that [len], slicing and the curly quotation
    marks of the dispatcher behave as they do in Python.  The class
    attribute [Database.quotes], the console ([print]) and the warning
    channel ([warnings.warn]) form the state that is threaded through a
    small state-and-exception monad. *)

From Stdlib Require Import List NArith ZArith Arith Bool Ascii String Lia.
Import ListNotations.

Set Implicit Arguments.

(** ** Python strings *)

Module Py.

(** A character is a Unicode code point. *)
Definition char := N.
Definition str := list char.

(** ASCII literals of the source, as code point sequences. *)
Fixpoint lit (s : string) : str :=
  match s with
  | EmptyString => []
  | String a s' => N_of_ascii a :: lit s'
  end.

(** [len(s)] *)
Definition len (s : str) : nat := List.length s.

(** [a == b] on strings. *)
Fixpoint eqb (a b : str) : bool :=
  match a, b with
  | [], [] => true
  | x :: a', y :: b' => N.eqb x y && eqb a' b'
  | _, _ => false
  end.

(** [x in xs] for a list of strings. *)
Definition mem (x : str) (xs : list str) : bool := existsb (eqb x) xs.

(** [s.startswith(p)] *)
Fixpoint startswith (p s : str) : bool :=
  match p, s with
  | [], _ => true
  | x :: p', y :: s' => N.eqb x y && startswith p' s'
  | _ :: _, [] => false
  end.

(** [s.endswith(p)] *)
Definition endswith (p s : str) : bool := startswith (rev p) (rev s).

(** [s.replace(old, new)] for one-character [old] and [new]: every
    occurrence of the character is replaced. *)
Definition replace (old new : char) (s : str) : str :=
  map (fun c => if N.eqb c old then new else c) s.

(** [s.split(sep)] for a one-character separator: the pieces between
    consecutive separators, empty pieces kept, never an empty list. *)
Fixpoint split (sep : char) (s : str) : list str :=
  match s with
  | [] => [[]]
  | c :: s' =>
      if N.eqb c sep then [] :: split sep s'
      else match split sep s' with
           | w :: ws => (c :: w) :: ws
           | [] => [[c]]
           end
  end.

(** [sep.join(pieces)] *)
Fixpoint join (sep : str) (pieces : list str) : str :=
  match pieces with
  | [] => []
  | [w] => w
  | w :: ws => w ++ sep ++ join sep ws
  end.

(** Index adjustment of a slice bound: a negative bound counts from the
    end, and the result is clamped to [0 .. len]. *)
Definition adjust (len i : Z) : Z :=
  if (i <? 0)%Z then Z.max 0 (i + len) else Z.min i len.

(** [s[start:stop]] *)
Definition slice (s : str) (start stop : Z) : str :=
  let len := Z.of_nat (len s) in
  let lo := adjust len start in
  let hi := adjust len stop in
  firstn (Z.to_nat (hi - lo)) (skipn (Z.to_nat lo) s).

End Py.

Import Py.

(** ** Characters and literals used by the program *)

Definition SPACE : char := 32%N.
Definition NEWLINE : char := 10%N.
Definition HYPHEN : char := 45%N.
(** The straight quotation mark, and the curly ones (U+201C, U+201D). *)
Definition DQUOTE : char := 34%N.
Definition LDQUOTE : char := 8220%N.
Definition RDQUOTE : char := 8221%N.

Definition UPPER_L : char := 76%N.
Definition LOWER_L : char := 108%N.
Definition UPPER_R : char := 82%N.
Definition LOWER_R : char := 114%N.
Definition UPPER_U : char := 85%N.
Definition LOWER_U : char := 117%N.
Definition UPPER_W : char := 87%N.
Definition LOWER_W : char := 119%N.
Definition LOWER_A : char := 97%N.

Definition MAX_QUOTE_LENGTH : nat := 50.

Inductive VariantMode := NORMAL | UWU | PIGLATIN.

Record Quote := mkQuote { quote : str; mode : VariantMode }.

(** [Quote.__str__] *)
Definition Quote_str (q : Quote) : str := quote q.

(** ** State, exceptions and the monad of the program *)

Inductive exn :=
| ValueError (msg : string)
| NotImplementedError (msg : string)
| DuplicateError.

(** What the program sends to the outside: lines printed on the console
    and warnings issued through [warnings.warn].  A warning is recorded
    when it is issued; whether the interpreter's filters display it is
    outside the program. *)
Inductive event :=
| Printed (line : str)
| Warned (msg : string).

(** [quotes] is the class attribute [Database.quotes]; [trace] collects
    the events in the order they happen. *)
Record world := mkWorld { quotes : list Quote; trace : list event }.

Definition init : world := mkWorld [] [].

Inductive result (A : Type) :=
| Ok (a : A)
| Raise (e : exn).
Arguments Raise {A} e.

Definition M (A : Type) : Type := world -> result A * world.

Definition ret {A} (a : A) : M A := fun w => (Ok a, w).

Definition bind {A B} (m : M A) (k : A -> M B) : M B :=
  fun w =>
    match m w with
    | (Ok a, w') => k a w'
    | (Raise e, w') => (Raise e, w')
    end.

Definition raise {A} (e : exn) : M A := fun w => (Raise e, w).

(** [try: body except DuplicateError: handler] *)
Definition try_except_Duplicate {A} (body : M A) (handler : M A) : M A :=
  fun w =>
    match body w with
    | (Raise DuplicateError, w') => handler w'
    | r => r
    end.

Definition emit (e : event) : M unit :=
  fun w => (Ok tt, mkWorld (quotes w) (trace w ++ [e])).

Definition print (s : str) : M unit := emit (Printed s).
Definition warn (msg : string) : M unit := emit (Warned msg).

Notation "x <- m ;; k" := (bind m (fun x => k))
  (at level 61, m at next level, right associativity).
Notation "m ;;; k" := (bind m (fun _ => k))
  (at level 61, right associativity).

(** ** The uwu transform *)

(** Lines 149-151: the four chained [replace] calls. *)
Definition partially_transformed (q : str) : str :=
  replace LOWER_R LOWER_W
    (replace UPPER_R UPPER_W
       (replace LOWER_L LOWER_W
          (replace UPPER_L UPPER_W q))).

(** The conditional expression of lines 154-156, for one [word]. *)
Definition stutter_word (word : str) : str :=
  if startswith [UPPER_U] word then [UPPER_U; HYPHEN] ++ word
  else if startswith [LOWER_U] word then [LOWER_U; HYPHEN] ++ word
  else word.

(** Lines 152-159, applied to the partially transformed quote. *)
Definition fully_transformed_of (partial : str) : str :=
  join [SPACE] (map stutter_word (split SPACE partial)).

Definition fully_transformed (q : str) : str :=
  fully_transformed_of (partially_transformed q).

Definition uwuify (q : str) : M str :=
  let partially_transformed_quote := partially_transformed q in
  let fully_transformed_quote := fully_transformed_of partially_transformed_quote in
  transformed_quote <-
    (if MAX_QUOTE_LENGTH <? len fully_transformed_quote
     then warn "Quote too long, only partially transformed" ;;;
          ret partially_transformed_quote
     else ret fully_transformed_quote) ;;
  if eqb transformed_quote q
  then raise (ValueError "Quote was not modified")
  else ret transformed_quote.

(** [Quote._create_variant] *)
Definition create_variant (q : Quote) : M str :=
  match mode q with
  | NORMAL => ret (quote q)
  | UWU => uwuify (quote q)
  | PIGLATIN => raise (NotImplementedError "Pig Latin variant not implemented")
  end.

(** ** The database *)

Module Database.

(** [Database.get_quotes]: a fresh list of the rendered texts. *)
Definition get_quotes : M (list str) :=
  fun w => (Ok (map Quote_str (quotes w)), w).

(** [cls.quotes.append(quote)] *)
Definition append (q : Quote) : M unit :=
  fun w => (Ok tt, mkWorld (quotes w ++ [q]) (trace w)).

(** [Database.add_quote] *)
Definition add_quote (q : Quote) : M unit :=
  texts <- get_quotes ;;
  if mem (Quote_str q) texts then raise DuplicateError
  else append q.

End Database.

(** ** Formatter, add-quote operation and dispatcher *)

Definition bullet (text : str) : str := lit "- " ++ text.

Definition list_formatted_quotes : M str :=
  texts <- Database.get_quotes ;;
  ret (join [NEWLINE] (map bullet texts)).

Definition add_quote (q : str) (m : VariantMode) : M unit :=
  if MAX_QUOTE_LENGTH <? len q
  then raise (ValueError "Quote is too long")
  else try_except_Duplicate
         (Database.add_quote (mkQuote q m))
         (print (lit "Quote has already been added previously")).

Definition run_command (command : str) : M unit :=
  if startswith (lit "quote uwu") command then
    let raw_quote := slice command 11 (-1) in
    uwuified_quote <- uwuify raw_quote ;;
    add_quote uwuified_quote UWU
  else if startswith (lit "quote piglatin") command then
    let raw_quote := slice command 16 (-1) in
    raise (NotImplementedError "Command not implemented")
  else if startswith (lit "quote list") command then
    formatted_quotes <- list_formatted_quotes ;;
    print formatted_quotes
  else if (startswith (lit "quote " ++ [DQUOTE]) command && endswith [DQUOTE] command)
          || (startswith (lit "quote " ++ [LDQUOTE]) command && endswith [RDQUOTE] command)
  then
    let raw_quote := slice command 7 (-1) in
    add_quote raw_quote NORMAL
  else raise (ValueError "Invalid command").

(** ** The transform, character by character *)

(** Step (a) on one character: [L] and [R] become [W], [l] and [r]
    become [w], every other character stays. *)
Definition uwu_char (c : char) : char :=
  if N.eqb c UPPER_L || N.eqb c UPPER_R then UPPER_W
  else if N.eqb c LOWER_L || N.eqb c LOWER_R then LOWER_W
  else c.

Definition is_u (c : char) : bool := N.eqb c UPPER_U || N.eqb c LOWER_U.

(** Step (b) as one pass over the text.  [at_start] tells whether the
    next character opens a piece, that is, whether it is the first
    character of the text or follows a space.  A [U] or [u] that opens a
    piece is written twice with a hyphen in between. *)
Fixpoint stutter (at_start : bool) (s : str) : str :=
  match s with
  | [] => []
  | c :: s' =>
      (if at_start && is_u c then [c; HYPHEN] else [])
        ++ c :: stutter (N.eqb c SPACE) s'
  end.

(** The reading of step (b) under which a hyphen is inserted after the
    first character of a word that starts with [U] or [u], words being
    delimited by whitespace. *)
Module Claimed.

(** ASCII whitespace: space, tab, line feed, vertical tab, form feed,
    carriage return. *)
Definition is_whitespace (c : char) : bool :=
  N.eqb c 32 || (N.leb 9 c && N.leb c 13).

Fixpoint hyphenate (at_start : bool) (s : str) : str :=
  match s with
  | [] => []
  | c :: s' =>
      c :: (if at_start && is_u c then [HYPHEN] else [])
        ++ hyphenate (is_whitespace c) s'
  end.

Definition uwu (q : str) : str := hyphenate true (map uwu_char q).

End Claimed.

(** ** Notions used to state the properties *)

(** The notice printed when the database reports a duplicate. *)
Definition already_added : event :=
  Printed (lit "Quote has already been added previously").

(** No two stored quotes render to the same text. *)
Definition store_invariant (w : world) : Prop :=
  NoDup (map Quote_str (quotes w)).

(** One operation takes the store of [w] to that of [w']: either the
    stored sequence is the same, or the operation returned normally and
    appended one quote of at most 50 characters whose text was not stored
    before. *)
Definition store_step (w : world) (r : result unit) (w' : world) : Prop :=
  quotes w' = quotes w
  \/ (r = Ok tt
      /\ exists text m,
           quotes w' = quotes w ++ [mkQuote text m]
           /\ ~ In text (map Quote_str (quotes w))
           /\ len text <= MAX_QUOTE_LENGTH).

(** The listing as the formatter's contract words it: one line per text,
    each line being [- ] followed by the text, a newline between
    consecutive lines, nothing for an empty sequence. *)
Module Listing.

Fixpoint more_lines (texts : list str) : str :=
  match texts with
  | [] => []
  | t :: ts => NEWLINE :: lit "- " ++ t ++ more_lines ts
  end.

Definition render (texts : list str) : str :=
  match texts with
  | [] => []
  | t :: ts => lit "- " ++ t ++ more_lines ts
  end.

End Listing.

(** The command [quote uwu"hello world"], with straight quotation marks. *)
Definition hello_world_command : str :=
  lit "quote uwu" ++ [DQUOTE] ++ lit "hello world" ++ [DQUOTE].

(** A text of [n] characters [c]. *)
Definition repeated (c : char) (n : nat) : str := List.repeat c n.

(** ** Notions used to state the further properties *)

(** The letters that step (a) replaces. *)
Definition is_lr (c : char) : bool :=
  N.eqb c UPPER_L || N.eqb c LOWER_L || N.eqb c UPPER_R || N.eqb c LOWER_R.

Definition has_lr (q : str) : bool := existsb is_lr q.

(** The two tests of lines 155-156 on a word. *)
Definition starts_with_u (word : str) : bool :=
  startswith [UPPER_U] word || startswith [LOWER_U] word.

(** Some piece of [q] between spaces starts with [U] or [u]. *)
Definition has_u_word (q : str) : bool :=
  existsb starts_with_u (split SPACE q).

Definition NOT_MODIFIED : exn := ValueError "Quote was not modified".
Definition TOO_LONG : exn := ValueError "Quote is too long".
Definition INVALID_COMMAND : exn := ValueError "Invalid command".

(** The world after the warning of the transform has been issued. *)
Definition warned (w : world) : world :=
  mkWorld (quotes w) (trace w ++ [Warned "Quote too long, only partially transformed"]).

(** What holds of every quote that the commands store: its text has at
    most 50 characters, its mode is not PIGLATIN, and the text of an UWU
    quote has none of the replaced letters. *)
Definition quote_ok (q : Quote) : Prop :=
  len (quote q) <= MAX_QUOTE_LENGTH
  /\ mode q <> PIGLATIN
  /\ (mode q = UWU -> has_lr (quote q) = false).

Definition well_formed_store (w : world) : Prop := Forall quote_ok (quotes w).

(** ** Sanity checks on concrete inputs *)

Example uwuify_really_loud :
  uwuify (lit "really loud") init = (Ok (lit "weawwy woud"), init).
Proof. reflexivity. Qed.

Example run_normal_hello :
  run_command (lit "quote " ++ [DQUOTE] ++ lit "hello" ++ [DQUOTE]) init
  = (Ok tt, mkWorld [mkQuote (lit "hello") NORMAL] []).
Proof. reflexivity. Qed.

(** ** Facts about the string primitives *)

Section StringFacts.

Lemma eqb_refl (a : str) : eqb a a = true.
Proof.
  induction a as [|x a IH]; simpl; [reflexivity|].
  now rewrite N.eqb_refl, IH.
Qed.

Lemma eqb_eq (a b : str) : eqb a b = true <-> a = b.
Proof.
  split; [|intros ->; apply eqb_refl].
  revert b; induction a as [|x a IH]; intros [|y b]; simpl; try discriminate; auto.
  intros H; apply andb_true_iff in H as [Hx Hab].
  apply N.eqb_eq in Hx; subst y.
  now rewrite (IH b Hab).
Qed.

Lemma eqb_neq (a b : str) : eqb a b = false <-> a <> b.
Proof.
  split.
  - intros H E; apply eqb_eq in E; congruence.
  - intros H; destruct (eqb a b) eqn:E; [|reflexivity].
    apply eqb_eq in E; contradiction.
Qed.

Lemma mem_In (x : str) (xs : list str) : mem x xs = true <-> In x xs.
Proof.
  unfold mem; rewrite existsb_exists; split.
  - intros (y & Hy & E); apply eqb_eq in E; now subst.
  - intros H; exists x; split; [assumption | apply eqb_refl].
Qed.

Lemma mem_not_In (x : str) (xs : list str) : mem x xs = false <-> ~ In x xs.
Proof.
  rewrite <- mem_In; destruct (mem x xs); split; congruence.
Qed.

Lemma startswith_app (p s : str) : startswith p (p ++ s) = true.
Proof.
  induction p as [|x p IH]; simpl; [reflexivity|].
  now rewrite N.eqb_refl, IH.
Qed.

Lemma startswith_prefix (p s : str) :
  startswith p s = true <-> exists t, s = p ++ t.
Proof.
  split; [|intros [t ->]; apply startswith_app].
  revert s; induction p as [|x p IH]; intros s H.
  - now exists s.
  - destruct s as [|y s]; simpl in H; [discriminate|].
    apply andb_true_iff in H as [Hx Hp].
    apply N.eqb_eq in Hx; subst y.
    destruct (IH s Hp) as [t ->]; now exists t.
Qed.

Lemma endswith_app (p s : str) : endswith p (s ++ p) = true.
Proof.
  unfold endswith; rewrite rev_app_distr; apply startswith_app.
Qed.

Lemma len_app (a b : str) : len (a ++ b) = len a + len b.
Proof. apply length_app. Qed.

Lemma len_replace (old new : char) (s : str) : len (replace old new s) = len s.
Proof. apply length_map. Qed.

(** A slice [s[n:-1]] drops the first [n] characters and the last one. *)
Lemma slice_drop_last (s : str) (n : nat) :
  slice s (Z.of_nat n) (-1) = removelast (skipn n s).
Proof.
  unfold slice, adjust, len.
  destruct (Z.ltb_spec (Z.of_nat n) 0) as [Hn|_]; [lia|].
  change (-1 <? 0)%Z with true; cbv iota.
  destruct (le_lt_dec (List.length s) n) as [Hle|Hlt].
  - rewrite (skipn_all2 s Hle), Z.min_r, Nat2Z.id by lia.
    rewrite skipn_all; apply firstn_nil.
  - rewrite removelast_firstn_len, length_skipn.
    rewrite Z.min_l, Nat2Z.id by lia.
    f_equal; lia.
Qed.

(** With an [n]-character prefix and a one-character suffix around [t],
    the slice [[n:-1]] is [t]. *)
Lemma slice_between (p t : str) (c : char) :
  slice (p ++ t ++ [c]) (Z.of_nat (len p)) (-1) = t.
Proof.
  rewrite slice_drop_last.
  unfold len; rewrite skipn_app, skipn_all, Nat.sub_diag; simpl.
  apply removelast_last.
Qed.

Lemma split_nonempty (sep : char) (s : str) : split sep s <> [].
Proof.
  destruct s as [|c s]; simpl; [discriminate|].
  destruct (N.eqb c sep); [discriminate|].
  destruct (split sep s); discriminate.
Qed.

Lemma join_cons_cons (sep w v : str) (ws : list str) :
  join sep (w :: v :: ws) = w ++ sep ++ join sep (v :: ws).
Proof. reflexivity. Qed.

(** Characters put in front of the first piece come out in front. *)
Lemma join_head_app (sep a w : str) (ws : list str) :
  join sep ((a ++ w) :: ws) = a ++ join sep (w :: ws).
Proof.
  destruct ws as [|v ws]; [reflexivity|].
  rewrite !join_cons_cons; now rewrite <- app_assoc.
Qed.

End StringFacts.

Section Transform.

Lemma partially_transformed_map (q : str) :
  partially_transformed q = map uwu_char q.
Proof.
  unfold partially_transformed, replace.
  rewrite !map_map; apply map_ext; intros c.
  unfold uwu_char, UPPER_L, UPPER_R, LOWER_L, LOWER_R, UPPER_W, LOWER_W.
  destruct (N.eqb_spec c 76) as [->|H1]; [reflexivity|].
  destruct (N.eqb_spec c 108) as [->|H2]; [reflexivity|].
  destruct (N.eqb_spec c 82) as [->|H3]; [reflexivity|].
  destruct (N.eqb_spec c 114) as [->|H4]; reflexivity.
Qed.

Lemma len_partially_transformed (q : str) :
  len (partially_transformed q) = len q.
Proof. unfold partially_transformed; now rewrite !len_replace. Qed.

Lemma stutter_word_cons (c : char) (w : str) :
  stutter_word (c :: w) = (if is_u c then [c; HYPHEN] else []) ++ c :: w.
Proof.
  unfold stutter_word, is_u; cbn [startswith].
  rewrite !andb_true_r, (N.eqb_sym UPPER_U c), (N.eqb_sym LOWER_U c).
  destruct (N.eqb_spec c UPPER_U) as [->|_]; [reflexivity|].
  destruct (N.eqb_spec c LOWER_U) as [->|_]; reflexivity.
Qed.

(** The split-map-join pipeline of lines 152-159 is the one-pass
    [stutter]; the second component covers the text after a character
    that is not a space, whose first piece is the rest of a piece
    already begun. *)
Lemma fully_transformed_stutter (s : str) :
  join [SPACE] (map stutter_word (split SPACE s)) = stutter true s
  /\ (forall w ws, split SPACE s = w :: ws ->
        join [SPACE] (w :: map stutter_word ws) = stutter false s).
Proof.
  induction s as [|c s [IHa IHb]].
  - split; [reflexivity|].
    intros w ws E; now inversion E.
  - simpl split; simpl stutter.
    destruct (N.eqb_spec c SPACE) as [->|Hc].
    + assert (E : forall w, join [SPACE] (w :: map stutter_word (split SPACE s))
                     = w ++ SPACE :: stutter true s).
      { intros w. destruct (split SPACE s) as [|v vs] eqn:Es.
        - now destruct (split_nonempty SPACE s).
        - simpl map. rewrite join_cons_cons.
          simpl map in IHa; now rewrite IHa. }
      split.
      * simpl map. change (stutter_word []) with (@nil char). apply E.
      * intros w ws H; inversion H; subst. apply E.
    + destruct (split SPACE s) as [|v vs] eqn:Es.
      { now destruct (split_nonempty SPACE s). }
      specialize (IHb v vs eq_refl).
      split.
      * simpl map. rewrite stutter_word_cons.
        rewrite join_head_app.
        change (c :: v) with ([c] ++ v); rewrite join_head_app.
        now rewrite IHb.
      * intros w ws H; inversion H; subst.
        change (c :: v) with ([c] ++ v); rewrite join_head_app.
        now rewrite IHb.
Qed.

Lemma fully_transformed_of_stutter (p : str) :
  fully_transformed_of p = stutter true p.
Proof. apply fully_transformed_stutter. Qed.

Lemma len_stutter (b : bool) (s : str) : len s <= len (stutter b s).
Proof.
  revert b; induction s as [|c s IH]; intros b; simpl; [lia|].
  unfold len in *; rewrite length_app; simpl.
  specialize (IH (N.eqb c SPACE)); lia.
Qed.

Lemma len_fully_transformed (q : str) : len q <= len (fully_transformed q).
Proof.
  unfold fully_transformed; rewrite fully_transformed_of_stutter.
  rewrite <- (len_partially_transformed q) at 1; apply len_stutter.
Qed.

(** [uwuify], with the monad unfolded. *)
Lemma uwuify_unfold (q : str) (w : world) :
  uwuify q w =
    if MAX_QUOTE_LENGTH <? len (fully_transformed q) then
      let w' := mkWorld (quotes w)
                  (trace w ++ [Warned "Quote too long, only partially transformed"]) in
      if eqb (partially_transformed q) q
      then (Raise (ValueError "Quote was not modified"), w')
      else (Ok (partially_transformed q), w')
    else
      if eqb (fully_transformed q) q
      then (Raise (ValueError "Quote was not modified"), w)
      else (Ok (fully_transformed q), w).
Proof.
  unfold uwuify, fully_transformed, bind.
  destruct (MAX_QUOTE_LENGTH <? _); simpl.
  - destruct (eqb _ q); reflexivity.
  - destruct (eqb _ q); reflexivity.
Qed.

End Transform.

(** ** The operations, with the monad unfolded *)

Section Unfolding.

Lemma Database_add_quote_unfold (q : Quote) (w : world) :
  Database.add_quote q w =
    if mem (Quote_str q) (map Quote_str (quotes w))
    then (Raise DuplicateError, w)
    else (Ok tt, mkWorld (quotes w ++ [q]) (trace w)).
Proof.
  unfold Database.add_quote, Database.get_quotes, bind.
  destruct (mem _ _); reflexivity.
Qed.

Lemma add_quote_unfold (q : str) (m : VariantMode) (w : world) :
  add_quote q m w =
    if MAX_QUOTE_LENGTH <? len q
    then (Raise (ValueError "Quote is too long"), w)
    else if mem q (map Quote_str (quotes w))
    then (Ok tt, mkWorld (quotes w) (trace w ++ [already_added]))
    else (Ok tt, mkWorld (quotes w ++ [mkQuote q m]) (trace w)).
Proof.
  unfold add_quote.
  destruct (MAX_QUOTE_LENGTH <? len q); [reflexivity|].
  unfold try_except_Duplicate; rewrite Database_add_quote_unfold.
  cbn [Quote_str quote].
  destruct (mem q _); reflexivity.
Qed.

Lemma list_formatted_quotes_unfold (w : world) :
  list_formatted_quotes w
  = (Ok (join [NEWLINE] (map bullet (map Quote_str (quotes w)))), w).
Proof. reflexivity. Qed.

(** The prefixes of the dispatcher exclude one another after their
    common part [quote ]. *)
Lemma run_command_uwu (c : str) (w : world) :
  startswith (lit "quote uwu") c = true ->
  run_command c w
  = (uwuified_quote <- uwuify (slice c 11 (-1)) ;; add_quote uwuified_quote UWU) w.
Proof. intros H; unfold run_command; now rewrite H. Qed.

Lemma startswith_list_not_others (c : str) :
  startswith (lit "quote list") c = true ->
  startswith (lit "quote uwu") c = false
  /\ startswith (lit "quote piglatin") c = false.
Proof.
  intros H; apply startswith_prefix in H as [t ->]; split; reflexivity.
Qed.

Lemma run_command_list (c : str) (w : world) :
  startswith (lit "quote list") c = true ->
  run_command c w
  = (Ok tt, mkWorld (quotes w)
              (trace w ++ [Printed (join [NEWLINE] (map bullet (map Quote_str (quotes w))))])).
Proof.
  intros H; destruct (startswith_list_not_others c H) as [H1 H2].
  unfold run_command; now rewrite H1, H2, H.
Qed.

End Unfolding.

(** ** How an operation may change the store *)

Section StoreSteps.

(** Case analysis on the string comparison met in the goal. *)
Ltac case_eqb :=
  match goal with |- context [eqb ?a ?b] => destruct (eqb a b) end.

(** Case analysis on the condition of the first conditional of the goal. *)
Ltac case_guard :=
  match goal with |- context [if ?b then _ else _] => destruct b end.

Lemma uwuify_quotes (q : str) (w : world) :
  quotes (snd (uwuify q w)) = quotes w.
Proof.
  rewrite uwuify_unfold.
  destruct (MAX_QUOTE_LENGTH <? _); cbv zeta;
    case_eqb; reflexivity.
Qed.

Lemma uwuify_errors (q : str) (w : world) (e : exn) :
  fst (uwuify q w) = Raise e -> e = ValueError "Quote was not modified".
Proof.
  rewrite uwuify_unfold.
  destruct (MAX_QUOTE_LENGTH <? _); cbv zeta;
    case_eqb; simpl; congruence.
Qed.

Lemma add_quote_step (q : str) (m : VariantMode) (w : world) :
  store_step w (fst (add_quote q m w)) (snd (add_quote q m w)).
Proof.
  rewrite add_quote_unfold.
  destruct (Nat.ltb_spec MAX_QUOTE_LENGTH (len q)) as [Hlong|Hshort].
  - now left.
  - destruct (mem q _) eqn:Hmem; [now left|].
    right; split; [reflexivity|].
    exists q, m; repeat split; [now apply mem_not_In | exact Hshort].
Qed.

Lemma add_quote_errors (q : str) (m : VariantMode) (w : world) (e : exn) :
  fst (add_quote q m w) = Raise e -> e = ValueError "Quote is too long".
Proof.
  rewrite add_quote_unfold.
  destruct (MAX_QUOTE_LENGTH <? len q); [simpl; congruence|].
  destruct (mem q _); simpl; discriminate.
Qed.

Lemma bind_uwuify_add_step (raw : str) (w : world) :
  let m := (u <- uwuify raw ;; add_quote u UWU) in
  store_step w (fst (m w)) (snd (m w)).
Proof.
  cbv zeta; unfold bind.
  pose proof (uwuify_quotes raw w) as Hq.
  destruct (uwuify raw w) as [[u|e] w1]; simpl in Hq.
  - pose proof (add_quote_step u UWU w1) as Hs.
    unfold store_step in *; now rewrite Hq in Hs.
  - now left.
Qed.

Lemma bind_uwuify_add_errors (raw : str) (w : world) (e : exn) :
  fst ((u <- uwuify raw ;; add_quote u UWU) w) = Raise e ->
  e = ValueError "Quote was not modified" \/ e = ValueError "Quote is too long".
Proof.
  unfold bind.
  pose proof (uwuify_errors raw w) as Hu.
  destruct (uwuify raw w) as [[u|e'] w1]; simpl in Hu.
  - intros H; right; now apply add_quote_errors in H.
  - simpl; intros H; left; apply Hu; congruence.
Qed.

Lemma run_command_step (c : str) (w : world) :
  store_step w (fst (run_command c w)) (snd (run_command c w)).
Proof.
  unfold run_command.
  destruct (startswith (lit "quote uwu") c); [apply bind_uwuify_add_step|].
  destruct (startswith (lit "quote piglatin") c); [now left|].
  destruct (startswith (lit "quote list") c); [now left|].
  case_guard;
    [apply add_quote_step | now left].
Qed.

Lemma run_command_errors (c : str) (w : world) (e : exn) :
  fst (run_command c w) = Raise e ->
  In e [ValueError "Invalid command"; ValueError "Quote is too long";
        ValueError "Quote was not modified";
        NotImplementedError "Command not implemented"].
Proof.
  unfold run_command.
  destruct (startswith (lit "quote uwu") c).
  { intros H; apply bind_uwuify_add_errors in H as [-> | ->]; simpl; auto. }
  destruct (startswith (lit "quote piglatin") c).
  { simpl; intros H; injection H as <-; auto 10. }
  destruct (startswith (lit "quote list") c); [discriminate|].
  case_guard.
  - intros H; apply add_quote_errors in H as ->; simpl; auto.
  - simpl; intros H; injection H as <-; auto.
Qed.

Lemma store_step_invariant (w w' : world) (r : result unit) :
  store_step w r w' -> store_invariant w -> store_invariant w'.
Proof.
  unfold store_invariant.
  intros [Hsame | (_ & text & m & Happ & Hnew & _)] Hinv.
  - now rewrite Hsame.
  - rewrite Happ, map_app; simpl.
    apply NoDup_app; [assumption | repeat constructor; simpl; tauto |].
    intros x Hx [<-|[]]; contradiction.
Qed.

End StoreSteps.

(** * Claims *)

(** ** C1: what the transform computes *)

(** C1, refuted as stated: step (b) does not insert a hyphen after the
    first character of a word.  On the word [under] the code's step (b)
    gives [u-under] where the claim has [u-nder], and the whole transform
    turns [under] into [u-undew], not into the claimed [u-ndew]. *)
Lemma C1_counterexample_under :
  fully_transformed_of (lit "under") = lit "u-under"
  /\ Claimed.hyphenate true (lit "under") = lit "u-nder"
  /\ uwuify (lit "under") init = (Ok (lit "u-undew"), init)
  /\ Claimed.uwu (lit "under") = lit "u-ndew"
  /\ fst (uwuify (lit "under") init) <> Ok (Claimed.uwu (lit "under")).
Proof.
  repeat split; try reflexivity.
  vm_compute; discriminate.
Qed.

(** Only the space character delimits pieces: a [u] after a tab is left
    alone, and the transform then fails because nothing changed. *)
Example tab_does_not_delimit :
  uwuify [97; 9; 117; 112]%N init
  = (Raise (ValueError "Quote was not modified"), init).
Proof. reflexivity. Qed.

(** C1 (amended): for every input string, the transform computes its
    fully transformed text by (a) replacing every [L] and [R] by [W] and
    every [l] and [r] by [w], then (b) writing, for each piece of the
    step-(a) text delimited by single space characters that starts with
    [U] or [u], the prefix [U-] or [u-] in front of the piece (so [under]
    becomes [u-under]) and leaving the other pieces unchanged.  The result
    of the transform is this text when it has at most 50 characters, and
    the step-(a) text, after a warning, when it has more; in both cases
    the transform fails with "Quote was not modified" when the text it
    would return equals the input. *)
Theorem C1_uwuify_stutters (q : str) (w : world) :
  let partial := map uwu_char q in
  let full := stutter true partial in
  partially_transformed q = partial
  /\ fully_transformed q = full
  /\ uwuify q w =
       if MAX_QUOTE_LENGTH <? len full then
         let w' := mkWorld (quotes w)
                     (trace w ++ [Warned "Quote too long, only partially transformed"]) in
         if eqb partial q
         then (Raise (ValueError "Quote was not modified"), w')
         else (Ok partial, w')
       else
         if eqb full q
         then (Raise (ValueError "Quote was not modified"), w)
         else (Ok full, w).
Proof.
  intros partial full.
  assert (Hp : partially_transformed q = partial) by apply partially_transformed_map.
  assert (Hf : fully_transformed q = full).
  { unfold fully_transformed; now rewrite fully_transformed_of_stutter, Hp. }
  repeat split; try assumption.
  now rewrite uwuify_unfold, Hf, Hp.
Qed.

(** ** C2: the uwu command and its fixed offset *)

(** C2, refuted as stated: [quote uwu] followed at once by the quotation
    mark is a prefix of 10 characters, so the slice from index 11 loses
    the first character of the text.  With the text [really loud] the raw
    quote is [eally loud] and the store receives [eawwy woud], whereas the
    transform of the text itself is [weawwy woud]. *)
Lemma C2_counterexample_really_loud :
  let t := lit "really loud" in
  let command := lit "quote uwu" ++ [DQUOTE] ++ t ++ [DQUOTE] in
  slice command 11 (-1) = lit "eally loud"
  /\ slice command 11 (-1) <> t
  /\ run_command command init = (Ok tt, mkWorld [mkQuote (lit "eawwy woud") UWU] [])
  /\ (u <- uwuify t ;; add_quote u UWU) init
     = (Ok tt, mkWorld [mkQuote (lit "weawwy woud") UWU] [])
  /\ run_command command init <> (u <- uwuify t ;; add_quote u UWU) init.
Proof.
  repeat split; try reflexivity; vm_compute; discriminate.
Qed.

(** C2 (amended): for every text [t], running the command made of
    [quote uwu], a space, a quotation mark, [t] and a final quotation mark
    (a prefix of 11 characters) extracts exactly [t] as the raw quote,
    applies the transform to [t] and adds the transformed result with
    mode UWU. *)
Theorem C2_uwu_command_extracts_text (t : str) (w : world) :
  let command := lit "quote uwu " ++ [DQUOTE] ++ t ++ [DQUOTE] in
  slice command 11 (-1) = t
  /\ run_command command w
     = (uwuified_quote <- uwuify t ;; add_quote uwuified_quote UWU) w.
Proof.
  intros command.
  assert (Hs : slice command 11 (-1) = t).
  { unfold command. rewrite (app_assoc (lit "quote uwu ")).
    apply (slice_between (lit "quote uwu " ++ [DQUOTE]) t DQUOTE). }
  split; [exact Hs|].
  rewrite run_command_uwu; [now rewrite Hs | reflexivity].
Qed.

(** ** C3: the store invariant *)

(** C3: [Database.add_quote] raises [DuplicateError], leaving the store
    as it is, whenever the text of the new quote is already among the
    stored texts, and otherwise appends the quote at the end; and every
    operation ([Database.add_quote], [Database.get_quotes], the add-quote
    operation, the formatter and every command) takes a store in which no
    two quotes render to the same text to such a store. *)
Theorem C3_store_invariant_preserved (w : world) (Hinv : store_invariant w) :
  (forall q, In (Quote_str q) (map Quote_str (quotes w)) ->
             Database.add_quote q w = (Raise DuplicateError, w))
  /\ (forall q, ~ In (Quote_str q) (map Quote_str (quotes w)) ->
                Database.add_quote q w
                = (Ok tt, mkWorld (quotes w ++ [q]) (trace w)))
  /\ (forall q, store_invariant (snd (Database.add_quote q w)))
  /\ store_invariant (snd (Database.get_quotes w))
  /\ store_invariant (snd (list_formatted_quotes w))
  /\ (forall text m, store_invariant (snd (add_quote text m w)))
  /\ (forall command, store_invariant (snd (run_command command w))).
Proof.
  assert (Hdup : forall q, In (Quote_str q) (map Quote_str (quotes w)) ->
                           Database.add_quote q w = (Raise DuplicateError, w)).
  { intros q Hin; rewrite Database_add_quote_unfold.
    apply mem_In in Hin; now rewrite Hin. }
  assert (Hnew : forall q, ~ In (Quote_str q) (map Quote_str (quotes w)) ->
                           Database.add_quote q w
                           = (Ok tt, mkWorld (quotes w ++ [q]) (trace w))).
  { intros q Hnin; rewrite Database_add_quote_unfold.
    apply mem_not_In in Hnin; now rewrite Hnin. }
  repeat split; try assumption.
  - intros q.
    destruct (in_dec (list_eq_dec N.eq_dec) (Quote_str q) (map Quote_str (quotes w)))
      as [Hin|Hnin].
    + now rewrite (Hdup q Hin).
    + rewrite (Hnew q Hnin); unfold store_invariant; simpl.
      rewrite map_app; simpl.
      apply NoDup_app; [assumption | repeat constructor; simpl; tauto |].
      intros x Hx [<-|[]]; contradiction.
  - intros text m. exact (store_step_invariant (add_quote_step text m w) Hinv).
  - intros command. exact (store_step_invariant (run_command_step command w) Hinv).
Qed.

(** A store holding [hello] satisfies the invariant; adding [hello] again
    is refused, and the command adding [hi] keeps the invariant. *)
Lemma C3_witness :
  let w := mkWorld [mkQuote (lit "hello") NORMAL] [] in
  store_invariant w
  /\ Database.add_quote (mkQuote (lit "hello") UWU) w = (Raise DuplicateError, w)
  /\ store_invariant
       (snd (run_command (lit "quote " ++ [DQUOTE] ++ lit "hi" ++ [DQUOTE]) w)).
Proof.
  intros w.
  assert (Hinv : store_invariant w).
  { unfold store_invariant; simpl. repeat constructor. simpl; tauto. }
  destruct (C3_store_invariant_preserved Hinv) as (Hdup & _ & _ & _ & _ & _ & Hrun).
  split; [exact Hinv|]. split.
  - apply Hdup; simpl; auto.
  - apply Hrun.
Defined.

(** ** C4: a failed command leaves the store alone *)

(** C4: when a command raises an error, the error is one of "Invalid
    command", "Quote is too long", "Quote was not modified" and "Command
    not implemented", and the stored quotes are exactly those from before
    the command.  [DuplicateError] never leaves the add-quote operation:
    when the database raises it, the operation returns normally after
    printing its notice, with the stored quotes unchanged. *)
Theorem C4_failed_command_keeps_store (command : str) (w : world) (e : exn)
    (Hfail : fst (run_command command w) = Raise e) :
  quotes (snd (run_command command w)) = quotes w
  /\ In e [ValueError "Invalid command"; ValueError "Quote is too long";
           ValueError "Quote was not modified";
           NotImplementedError "Command not implemented"]
  /\ e <> DuplicateError
  /\ (forall text m w0,
        len text <= MAX_QUOTE_LENGTH ->
        fst (Database.add_quote (mkQuote text m) w0) = Raise DuplicateError ->
        add_quote text m w0
        = (Ok tt, mkWorld (quotes w0) (trace w0 ++ [already_added]))).
Proof.
  pose proof (run_command_errors command w Hfail) as Herr.
  repeat split.
  - destruct (run_command_step command w) as [Hsame | (Hok & _)]; [exact Hsame|].
    rewrite Hfail in Hok; discriminate.
  - exact Herr.
  - intros ->; simpl in Herr; intuition discriminate.
  - intros text m w0 Hlen Hdup.
    rewrite add_quote_unfold.
    apply Nat.ltb_ge in Hlen; rewrite Hlen.
    rewrite Database_add_quote_unfold in Hdup; cbn [Quote_str quote] in Hdup.
    destruct (mem text _); [reflexivity | discriminate].
Qed.

(** The pig latin command fails on a store holding [hi] and leaves it as
    it is; adding [hi] again is answered by the notice. *)
Lemma C4_witness :
  let w := mkWorld [mkQuote (lit "hi") NORMAL] [] in
  let command := lit "quote piglatin " ++ [DQUOTE] ++ lit "test" ++ [DQUOTE] in
  fst (run_command command w) = Raise (NotImplementedError "Command not implemented")
  /\ quotes (snd (run_command command w)) = quotes w
  /\ add_quote (lit "hi") UWU w = (Ok tt, mkWorld (quotes w) [already_added]).
Proof.
  intros w command.
  assert (Hfail : fst (run_command command w)
                  = Raise (NotImplementedError "Command not implemented"))
    by reflexivity.
  destruct (C4_failed_command_keeps_store command w Hfail) as (Hsame & _ & _ & Hdup).
  split; [exact Hfail|]. split; [exact Hsame|].
  apply (Hdup (lit "hi") UWU w); [vm_compute; lia | reflexivity].
Defined.

(** ** C5: the command [quote uwu"hello world"] *)

(** C5, refuted as stated: on the empty store the command returns
    normally and the store then holds one quote, [ewwo wowwd] with mode
    UWU; no "Quote was not modified" error is raised. *)
Lemma C5_counterexample_hello_world :
  run_command hello_world_command init
  = (Ok tt, mkWorld [mkQuote (lit "ewwo wowwd") UWU] [])
  /\ fst (run_command hello_world_command init)
     <> Raise (ValueError "Quote was not modified")
  /\ quotes (snd (run_command hello_world_command init)) <> quotes init.
Proof.
  repeat split; try reflexivity; vm_compute; discriminate.
Qed.

(** C5 (amended): running the command [quote uwu"hello world"] does not
    fail.  The raw quote is [ello world] (the slice starts at index 11),
    the transform changes it into [ewwo wowwd], and the command behaves as
    the addition of [ewwo wowwd] with mode UWU: the quote is appended to
    the store, or, when that text is stored already, the notice is printed
    and the store stays as it is. *)
Theorem C5_hello_world_is_stored (w : world) :
  slice hello_world_command 11 (-1) = lit "ello world"
  /\ uwuify (lit "ello world") w = (Ok (lit "ewwo wowwd"), w)
  /\ run_command hello_world_command w = add_quote (lit "ewwo wowwd") UWU w
  /\ run_command hello_world_command w
     = if mem (lit "ewwo wowwd") (map Quote_str (quotes w))
       then (Ok tt, mkWorld (quotes w) (trace w ++ [already_added]))
       else (Ok tt, mkWorld (quotes w ++ [mkQuote (lit "ewwo wowwd") UWU]) (trace w)).
Proof.
  assert (Hu : uwuify (lit "ello world") w = (Ok (lit "ewwo wowwd"), w))
    by (rewrite uwuify_unfold; reflexivity).
  assert (Hr : run_command hello_world_command w = add_quote (lit "ewwo wowwd") UWU w).
  { rewrite run_command_uwu by reflexivity.
    change (slice hello_world_command 11 (-1)) with (lit "ello world").
    unfold bind; now rewrite Hu. }
  repeat split; try assumption; try reflexivity.
  rewrite Hr, add_quote_unfold; reflexivity.
Qed.

(** ** C6: the length limit of the add-quote operation *)

(** C6: for a text of exactly 50 characters the add-quote operation
    reaches the database and returns normally (the quote is appended, or
    the duplicate notice is printed); for a text of 51 characters or more
    it raises "Quote is too long" with the store and the console
    untouched. *)
Theorem C6_length_limit (text : str) (m : VariantMode) (w : world) :
  (len text = 50 ->
     add_quote text m w
     = try_except_Duplicate (Database.add_quote (mkQuote text m))
         (print (lit "Quote has already been added previously")) w
     /\ fst (add_quote text m w) = Ok tt
     /\ (~ In text (map Quote_str (quotes w)) ->
         snd (add_quote text m w) = mkWorld (quotes w ++ [mkQuote text m]) (trace w)))
  /\ (51 <= len text ->
      add_quote text m w = (Raise (ValueError "Quote is too long"), w)).
Proof.
  split.
  - intros Hlen.
    assert (Hlt : (MAX_QUOTE_LENGTH <? len text) = false)
      by (apply Nat.ltb_ge; unfold MAX_QUOTE_LENGTH; lia).
    split; [unfold add_quote; now rewrite Hlt|].
    rewrite add_quote_unfold, Hlt.
    split.
    + destruct (mem text _); reflexivity.
    + intros Hnin; apply mem_not_In in Hnin; now rewrite Hnin.
  - intros Hlen.
    assert (Hlt : (MAX_QUOTE_LENGTH <? len text) = true)
      by (apply Nat.ltb_lt; unfold MAX_QUOTE_LENGTH; lia).
    unfold add_quote; now rewrite Hlt.
Qed.

(** Fifty letters [a] are stored; fifty-one are refused. *)
Lemma C6_witness :
  len (repeated LOWER_A 50) = 50
  /\ add_quote (repeated LOWER_A 50) NORMAL init
     = (Ok tt, mkWorld [mkQuote (repeated LOWER_A 50) NORMAL] [])
  /\ 51 <= len (repeated LOWER_A 51)
  /\ add_quote (repeated LOWER_A 51) NORMAL init
     = (Raise (ValueError "Quote is too long"), init).
Proof.
  destruct (C6_length_limit (repeated LOWER_A 50) NORMAL init) as [H50 _].
  destruct (C6_length_limit (repeated LOWER_A 51) NORMAL init) as [_ H51].
  assert (L50 : len (repeated LOWER_A 50) = 50) by reflexivity.
  assert (L51 : 51 <= len (repeated LOWER_A 51)) by (vm_compute; lia).
  destruct (H50 L50) as (_ & Hok & Hstore).
  split; [exact L50|]. split; [|split; [exact L51 | exact (H51 L51)]].
  specialize (Hstore (fun H : In _ [] => H)).
  destruct (add_quote (repeated LOWER_A 50) NORMAL init) as [r w'].
  simpl in Hok, Hstore; now subst.
Defined.

(** ** C7: the formatter *)

Section Formatter.

Lemma join_bullets_cons (t : str) (ts : list str) :
  join [NEWLINE] (map bullet (t :: ts)) = bullet t ++ Listing.more_lines ts.
Proof.
  revert t; induction ts as [|u ts IH]; intros t.
  - simpl; now rewrite app_nil_r.
  - change (map bullet (t :: u :: ts)) with (bullet t :: bullet u :: map bullet ts).
    rewrite join_cons_cons.
    change (bullet u :: map bullet ts) with (map bullet (u :: ts)).
    rewrite IH; reflexivity.
Qed.

Lemma join_bullets_render (texts : list str) :
  join [NEWLINE] (map bullet texts) = Listing.render texts.
Proof.
  destruct texts as [|t ts]; [reflexivity|].
  rewrite join_bullets_cons; unfold bullet, Listing.render.
  now rewrite <- app_assoc.
Qed.

Lemma more_lines_app (ts us : list str) :
  Listing.more_lines (ts ++ us) = Listing.more_lines ts ++ Listing.more_lines us.
Proof.
  induction ts as [|t ts IH]; [reflexivity|].
  simpl; rewrite IH. now rewrite <- !app_assoc.
Qed.

Lemma render_snoc (texts : list str) (t : str) :
  Listing.render (texts ++ [t])
  = match texts with
    | [] => lit "- " ++ t
    | _ :: _ => Listing.render texts ++ (NEWLINE :: lit "- " ++ t)
    end.
Proof.
  destruct texts as [|u us]; simpl.
  - now rewrite app_nil_r.
  - rewrite more_lines_app; simpl.
    rewrite app_nil_r. now rewrite <- !app_assoc.
Qed.

End Formatter.

(** C7: for every store, the formatter returns, without changing the
    store or printing, the string made of one line per stored quote in
    insertion order, each line being [- ] followed by the text of the
    quote, with a newline between consecutive lines; for the empty store
    it returns the empty string, and a quote appended to the store adds
    its line at the end of the listing. *)
Theorem C7_listing_format (w : world) :
  list_formatted_quotes w = (Ok (Listing.render (map Quote_str (quotes w))), w)
  /\ list_formatted_quotes (mkWorld [] (trace w)) = (Ok [], mkWorld [] (trace w))
  /\ (forall q,
        fst (list_formatted_quotes (mkWorld (quotes w ++ [q]) (trace w)))
        = match quotes w with
          | [] => Ok (lit "- " ++ Quote_str q)
          | _ :: _ =>
              Ok (Listing.render (map Quote_str (quotes w))
                    ++ (NEWLINE :: lit "- " ++ Quote_str q))
          end).
Proof.
  assert (H : forall w0, list_formatted_quotes w0
                         = (Ok (Listing.render (map Quote_str (quotes w0))), w0)).
  { intros w0; rewrite list_formatted_quotes_unfold. now rewrite join_bullets_render. }
  repeat split.
  - apply H.
  - intros q; rewrite H; cbn [fst quotes].
    rewrite map_app; cbn [map]. rewrite render_snoc.
    destruct (quotes w); reflexivity.
Qed.

(** The listing of the quotes [A], [B], [C], added in that order. *)
Example listing_ABC :
  list_formatted_quotes
    (mkWorld [mkQuote (lit "A") NORMAL; mkQuote (lit "B") NORMAL;
              mkQuote (lit "C") NORMAL] [])
  = (Ok (lit "- A" ++ [NEWLINE] ++ lit "- B" ++ [NEWLINE] ++ lit "- C"),
     mkWorld [mkQuote (lit "A") NORMAL; mkQuote (lit "B") NORMAL;
              mkQuote (lit "C") NORMAL] []).
Proof. reflexivity. Qed.

(** ** C8: the list command *)

(** C8: a command that starts with [quote list] prints the formatted
    listing and returns normally with the stored quotes exactly as they
    were; and whenever a command changes the stored quotes, it has
    returned normally and the change is one quote appended at the end. *)
Theorem C8_list_command_keeps_store (command : str) (w : world)
    (Hlist : startswith (lit "quote list") command = true) :
  run_command command w
  = (Ok tt, mkWorld (quotes w)
              (trace w ++ [Printed (Listing.render (map Quote_str (quotes w)))]))
  /\ quotes (snd (run_command command w)) = quotes w
  /\ (forall c w0,
        quotes (snd (run_command c w0)) <> quotes w0 ->
        fst (run_command c w0) = Ok tt
        /\ exists text m,
             quotes (snd (run_command c w0)) = quotes w0 ++ [mkQuote text m]).
Proof.
  assert (H : run_command command w
              = (Ok tt, mkWorld (quotes w)
                   (trace w ++ [Printed (Listing.render (map Quote_str (quotes w)))]))).
  { rewrite (run_command_list command w Hlist); now rewrite join_bullets_render. }
  split; [exact H|]. split; [now rewrite H|].
  intros c w0 Hchanged.
  destruct (run_command_step c w0) as [Hsame | (Hok & text & m & Happ & _)].
  - contradiction.
  - split; [exact Hok | now exists text, m].
Qed.

(** The list command on a store holding [hi] prints [- hi] and keeps the
    store. *)
Lemma C8_witness :
  let w := mkWorld [mkQuote (lit "hi") NORMAL] [] in
  startswith (lit "quote list") (lit "quote list") = true
  /\ run_command (lit "quote list") w
     = (Ok tt, mkWorld [mkQuote (lit "hi") NORMAL] [Printed (lit "- hi")]).
Proof.
  intros w.
  assert (Hlist : startswith (lit "quote list") (lit "quote list") = true)
    by reflexivity.
  split; [exact Hlist|].
  exact (proj1 (C8_list_command_keeps_store (lit "quote list") w Hlist)).
Defined.

(** ** C9: no validation on the uwu path *)

(** C9: every command that starts with [quote uwu] is run as an uwu
    addition, whatever follows the prefix: the raw quote is the slice from
    index 11 up to, and without, the last character (the command without
    its first 11 characters and its last one), it is transformed and the
    result is added with mode UWU.  The bare command [quote uwu] has the
    empty raw quote, whose transform raises "Quote was not modified". *)
Theorem C9_uwu_path_unvalidated (command : str) (w : world)
    (Huwu : startswith (lit "quote uwu") command = true) :
  slice command 11 (-1) = removelast (skipn 11 command)
  /\ run_command command w
     = (uwuified_quote <- uwuify (removelast (skipn 11 command)) ;;
        add_quote uwuified_quote UWU) w
  /\ slice (lit "quote uwu") 11 (-1) = []
  /\ uwuify [] w = (Raise (ValueError "Quote was not modified"), w)
  /\ run_command (lit "quote uwu") w
     = (Raise (ValueError "Quote was not modified"), w).
Proof.
  assert (Hs : slice command 11 (-1) = removelast (skipn 11 command))
    by apply (slice_drop_last command 11).
  split; [exact Hs|]. split; [now rewrite run_command_uwu, Hs|].
  split; [reflexivity|].
  assert (He : uwuify [] w = (Raise (ValueError "Quote was not modified"), w))
    by (rewrite uwuify_unfold; reflexivity).
  split; [exact He|].
  rewrite run_command_uwu by reflexivity.
  change (slice (lit "quote uwu") 11 (-1)) with (@nil char).
  unfold bind; now rewrite He.
Qed.

(** A command without any quotation mark: [quote uwu: really loud!]
    stores [weawwy woud]. *)
Lemma C9_witness :
  let command := lit "quote uwu: really loud!" in
  startswith (lit "quote uwu") command = true
  /\ slice command 11 (-1) = lit "really loud"
  /\ run_command command init
     = (Ok tt, mkWorld [mkQuote (lit "weawwy woud") UWU] []).
Proof.
  intros command.
  assert (Huwu : startswith (lit "quote uwu") command = true) by reflexivity.
  destruct (C9_uwu_path_unvalidated command init Huwu) as (Hs & Hrun & _).
  split; [exact Huwu|]. split.
  - rewrite Hs; reflexivity.
  - rewrite Hrun; reflexivity.
Defined.

(** ** C10: fallback to the partial transform and the length limit *)

(** C10, refuted as stated: the raw quote [u] followed by fifty [a] has a
    fully transformed text of 53 characters and a partially transformed
    text of 51, yet the command does not fail with "Quote is too long":
    the partial text equals the raw quote, so the transform itself fails
    with "Quote was not modified" after the warning. *)
Lemma C10_counterexample_unmodified :
  let raw := LOWER_U :: repeated LOWER_A 50 in
  let command := lit "quote uwu " ++ [DQUOTE] ++ raw ++ [DQUOTE] in
  slice command 11 (-1) = raw
  /\ len (fully_transformed raw) = 53
  /\ len (partially_transformed raw) = 51
  /\ run_command command init
     = (Raise (ValueError "Quote was not modified"),
        mkWorld [] [Warned "Quote too long, only partially transformed"])
  /\ fst (run_command command init) <> Raise (ValueError "Quote is too long").
Proof.
  repeat split; try reflexivity; vm_compute; discriminate.
Qed.

(** C10 (amended): when the fully transformed text of the raw quote of an
    uwu command exceeds 50 characters, the transform issues its warning
    and falls back to the partially transformed text.  If that text
    differs from the raw quote, the transform returns it, and if it still
    exceeds 50 characters the subsequent add fails with "Quote is too
    long"; if it equals the raw quote, the transform fails with "Quote
    was not modified".  In each of these cases nothing is stored. *)
Theorem C10_fallback_then_too_long (command : str) (w : world)
    (Huwu : startswith (lit "quote uwu") command = true)
    (Hfull : MAX_QUOTE_LENGTH < len (fully_transformed (slice command 11 (-1)))) :
  let raw := slice command 11 (-1) in
  let partial := partially_transformed raw in
  let w' := mkWorld (quotes w)
              (trace w ++ [Warned "Quote too long, only partially transformed"]) in
  (partial <> raw -> uwuify raw w = (Ok partial, w'))
  /\ (partial <> raw -> MAX_QUOTE_LENGTH < len partial ->
      run_command command w = (Raise (ValueError "Quote is too long"), w'))
  /\ (partial = raw ->
      run_command command w = (Raise (ValueError "Quote was not modified"), w')).
Proof.
  intros raw partial w'.
  apply Nat.ltb_lt in Hfull.
  assert (Hu : uwuify raw w
               = if eqb partial raw
                 then (Raise (ValueError "Quote was not modified"), w')
                 else (Ok partial, w')).
  { rewrite uwuify_unfold; fold raw. unfold raw at 1. now rewrite Hfull. }
  assert (Hrun : run_command command w
                 = (u <- uwuify raw ;; add_quote u UWU) w)
    by now apply run_command_uwu.
  repeat split.
  - intros Hne; apply eqb_neq in Hne; now rewrite Hu, Hne.
  - intros Hne Hlong.
    apply eqb_neq in Hne; apply Nat.ltb_lt in Hlong.
    rewrite Hrun; unfold bind; rewrite Hu, Hne.
    unfold add_quote; now rewrite Hlong.
  - intros Heq.
    rewrite Hrun; unfold bind; rewrite Hu, Heq, eqb_refl; reflexivity.
Qed.

(** The raw quote [r] followed by fifty [a]: the partial text [w] followed
    by fifty [a] has 51 characters, and the add fails with "Quote is too
    long"; nothing is stored. *)
Lemma C10_witness :
  let raw := LOWER_R :: repeated LOWER_A 50 in
  let command := lit "quote uwu " ++ [DQUOTE] ++ raw ++ [DQUOTE] in
  startswith (lit "quote uwu") command = true
  /\ MAX_QUOTE_LENGTH < len (fully_transformed (slice command 11 (-1)))
  /\ run_command command init
     = (Raise (ValueError "Quote is too long"),
        mkWorld [] [Warned "Quote too long, only partially transformed"]).
Proof.
  intros raw command.
  assert (Huwu : startswith (lit "quote uwu") command = true) by reflexivity.
  assert (Hfull : MAX_QUOTE_LENGTH < len (fully_transformed (slice command 11 (-1))))
    by (vm_compute; lia).
  destruct (C10_fallback_then_too_long command init Huwu Hfull) as (_ & Hlong & _).
  split; [exact Huwu|]. split; [exact Hfull|].
  apply Hlong.
  - vm_compute; discriminate.
  - vm_compute; lia.
Defined.

(** * Further properties of the code *)

(** ** Splitting and joining *)

Section SplitJoin.

Variable sep : char.

Lemma join_split (s : str) : join [sep] (split sep s) = s.
Proof.
  induction s as [|c s IH]; [reflexivity|].
  simpl split.
  destruct (N.eqb_spec c sep) as [->|_].
  - destruct (split sep s) as [|v vs] eqn:E; [now destruct (split_nonempty sep s)|].
    rewrite join_cons_cons, IH; reflexivity.
  - destruct (split sep s) as [|v vs] eqn:E; [now destruct (split_nonempty sep s)|].
    change (c :: v) with ([c] ++ v); rewrite join_head_app, IH; reflexivity.
Qed.

Lemma split_without_sep (w : str) : ~ In sep w -> split sep w = [w].
Proof.
  induction w as [|c w IH]; intros Hn; [reflexivity|].
  simpl split.
  destruct (N.eqb_spec c sep) as [->|_]; [destruct Hn; now left|].
  rewrite IH; [reflexivity | intros H; apply Hn; now right].
Qed.

Lemma split_app_sep (w r : str) :
  ~ In sep w -> split sep (w ++ sep :: r) = w :: split sep r.
Proof.
  induction w as [|c w IH]; intros Hn.
  - simpl; now rewrite N.eqb_refl.
  - simpl app; simpl split.
    destruct (N.eqb_spec c sep) as [->|_]; [destruct Hn; now left|].
    rewrite IH; [reflexivity | intros H; apply Hn; now right].
Qed.

Lemma split_join (ws : list str) :
  ws <> [] -> (forall w, In w ws -> ~ In sep w) ->
  split sep (join [sep] ws) = ws.
Proof.
  induction ws as [|w ws IH]; intros Hne Hall; [contradiction|].
  destruct ws as [|v vs].
  - simpl; apply split_without_sep, Hall; now left.
  - rewrite join_cons_cons.
    change (w ++ [sep] ++ join [sep] (v :: vs)) with (w ++ sep :: join [sep] (v :: vs)).
    rewrite split_app_sep by (apply Hall; now left).
    rewrite IH; [reflexivity | discriminate |].
    intros x Hx; apply Hall; now right.
Qed.

End SplitJoin.

(** ** The transform: lengths and fixed points *)

Section TransformFacts.

Lemma is_lr_split (c : char) :
  is_lr c = (N.eqb c UPPER_L || N.eqb c UPPER_R) || (N.eqb c LOWER_L || N.eqb c LOWER_R).
Proof.
  unfold is_lr.
  destruct (N.eqb c UPPER_L), (N.eqb c LOWER_L), (N.eqb c UPPER_R); reflexivity.
Qed.

Lemma is_lr_uwu_char (c : char) : is_lr (uwu_char c) = false.
Proof.
  unfold uwu_char.
  destruct (N.eqb c UPPER_L || N.eqb c UPPER_R) eqn:E1; [reflexivity|].
  destruct (N.eqb c LOWER_L || N.eqb c LOWER_R) eqn:E2; [reflexivity|].
  now rewrite is_lr_split, E1, E2.
Qed.

Lemma uwu_char_fixed (c : char) : uwu_char c = c <-> is_lr c = false.
Proof.
  rewrite is_lr_split; unfold uwu_char.
  destruct (N.eqb c UPPER_L || N.eqb c UPPER_R) eqn:E1.
  - split; [|discriminate].
    intros H; rewrite <- H in E1; discriminate.
  - destruct (N.eqb c LOWER_L || N.eqb c LOWER_R) eqn:E2.
    + split; [|discriminate].
      intros H; rewrite <- H in E2; discriminate.
    + split; reflexivity.
Qed.

Lemma has_lr_partially_transformed (q : str) :
  has_lr (partially_transformed q) = false.
Proof.
  rewrite partially_transformed_map; unfold has_lr.
  induction q as [|c q IH]; [reflexivity|].
  simpl; now rewrite is_lr_uwu_char, IH.
Qed.

Lemma partially_transformed_fixed (q : str) :
  partially_transformed q = q <-> has_lr q = false.
Proof.
  rewrite partially_transformed_map; unfold has_lr.
  induction q as [|c q IH]; [split; reflexivity|].
  simpl; rewrite orb_false_iff, <- IH, <- uwu_char_fixed.
  split; [intros H; injection H; auto | intros [-> ->]; reflexivity].
Qed.

Lemma is_lr_of_u (c : char) : is_u c = true -> is_lr c = false.
Proof.
  unfold is_u, is_lr, UPPER_U, LOWER_U, UPPER_L, UPPER_R, LOWER_L, LOWER_R.
  intros H; apply orb_true_iff in H as [H|H]; apply N.eqb_eq in H; subst; reflexivity.
Qed.

Lemma has_lr_stutter (b : bool) (s : str) : has_lr (stutter b s) = has_lr s.
Proof.
  unfold has_lr; revert b; induction s as [|c s IH]; intros b; [reflexivity|].
  simpl stutter; rewrite existsb_app; simpl existsb; rewrite IH.
  destruct (b && is_u c) eqn:E; [|reflexivity].
  apply andb_true_iff in E as [_ Hu]; simpl.
  now rewrite (is_lr_of_u c Hu).
Qed.

Lemma has_lr_fully_transformed (q : str) : has_lr (fully_transformed q) = false.
Proof.
  unfold fully_transformed; rewrite fully_transformed_of_stutter, has_lr_stutter.
  apply has_lr_partially_transformed.
Qed.

Lemma stutter_word_unchanged (w : str) :
  starts_with_u w = false -> stutter_word w = w.
Proof.
  unfold starts_with_u, stutter_word; intros H.
  apply orb_false_iff in H as [-> ->]; reflexivity.
Qed.

Lemma len_stutter_word (w : str) :
  len (stutter_word w) = len w + (if starts_with_u w then 2 else 0).
Proof.
  unfold starts_with_u, stutter_word.
  destruct (startswith [UPPER_U] w); [simpl; unfold len; simpl; lia|].
  destruct (startswith [LOWER_U] w); simpl; unfold len; simpl; lia.
Qed.

Lemma len_join_stutter (ws : list str) :
  len (join [SPACE] (map stutter_word ws))
  = len (join [SPACE] ws) + 2 * List.length (filter starts_with_u ws).
Proof.
  induction ws as [|w ws IH]; [reflexivity|].
  destruct ws as [|v vs].
  - simpl map; simpl join; rewrite len_stutter_word.
    simpl filter; destruct (starts_with_u w); simpl; lia.
  - change (map stutter_word (w :: v :: vs))
      with (stutter_word w :: stutter_word v :: map stutter_word vs).
    rewrite !join_cons_cons.
    change (stutter_word v :: map stutter_word vs) with (map stutter_word (v :: vs)).
    rewrite !len_app, IH, len_stutter_word.
    change (filter starts_with_u (w :: v :: vs))
      with (if starts_with_u w then w :: filter starts_with_u (v :: vs)
            else filter starts_with_u (v :: vs)).
    destruct (starts_with_u w); simpl List.length; lia.
Qed.

Lemma len_fully_transformed_of (p : str) :
  len (fully_transformed_of p)
  = len p + 2 * List.length (filter starts_with_u (split SPACE p)).
Proof.
  unfold fully_transformed_of; rewrite len_join_stutter; now rewrite join_split.
Qed.

Lemma filter_nil_existsb (A : Type) (f : A -> bool) (l : list A) :
  filter f l = [] <-> existsb f l = false.
Proof.
  induction l as [|x l IH]; [split; reflexivity|].
  simpl; destruct (f x); simpl; [split; discriminate | exact IH].
Qed.

Lemma fully_transformed_of_unchanged (p : str) :
  has_u_word p = false -> fully_transformed_of p = p.
Proof.
  unfold has_u_word, fully_transformed_of; intros H.
  rewrite (map_ext_in stutter_word (fun w => w)).
  - rewrite map_id; apply join_split.
  - intros w Hw; apply stutter_word_unchanged.
    destruct (starts_with_u w) eqn:E; [|reflexivity].
    assert (existsb starts_with_u (split SPACE p) = true)
      by (apply existsb_exists; now exists w).
    congruence.
Qed.

Lemma fully_transformed_fixed (q : str) :
  fully_transformed q = q <-> has_lr q = false /\ has_u_word q = false.
Proof.
  unfold fully_transformed; split.
  - intros H.
    assert (Hlen : len (fully_transformed_of (partially_transformed q)) = len q)
      by now rewrite H.
    rewrite len_fully_transformed_of, len_partially_transformed in Hlen.
    assert (Hu : has_u_word (partially_transformed q) = false).
    { apply filter_nil_existsb.
      destruct (filter starts_with_u (split SPACE (partially_transformed q)));
        [reflexivity | simpl in Hlen; lia]. }
    rewrite (fully_transformed_of_unchanged _ Hu) in H.
    split; [now apply partially_transformed_fixed | now rewrite H in Hu].
  - intros [Hlr Hu].
    apply partially_transformed_fixed in Hlr; rewrite Hlr.
    now apply fully_transformed_of_unchanged.
Qed.

End TransformFacts.

(** ** What the transform returns and when it fails *)

Section UwuifyResults.

(** The two ways in which [uwuify] returns normally. *)
Lemma uwuify_returns (q t : str) (w w' : world) :
  uwuify q w = (Ok t, w') ->
  (len (fully_transformed q) <= MAX_QUOTE_LENGTH
   /\ t = fully_transformed q /\ t <> q /\ w' = w)
  \/ (MAX_QUOTE_LENGTH < len (fully_transformed q)
      /\ t = partially_transformed q /\ t <> q /\ w' = warned w).
Proof.
  rewrite uwuify_unfold.
  destruct (Nat.ltb_spec MAX_QUOTE_LENGTH (len (fully_transformed q))) as [Hlong|Hshort];
    cbv zeta.
  - destruct (eqb _ q) eqn:E; [discriminate|].
    intros H; injection H as <- <-; right.
    apply eqb_neq in E; repeat split; assumption.
  - destruct (eqb _ q) eqn:E; [discriminate|].
    intros H; injection H as <- <-; left.
    apply eqb_neq in E; repeat split; assumption.
Qed.

Lemma add_quote_within_limit (t : str) (m : VariantMode) (w : world) :
  len t <= MAX_QUOTE_LENGTH ->
  fst (add_quote t m w) = Ok tt
  /\ In t (map Quote_str (quotes (snd (add_quote t m w)))).
Proof.
  intros Hlen; rewrite add_quote_unfold.
  apply Nat.ltb_ge in Hlen; rewrite Hlen.
  destruct (mem t _) eqn:E; simpl.
  - split; [reflexivity | now apply mem_In].
  - split; [reflexivity|].
    rewrite map_app; apply in_or_app; right; simpl; now left.
Qed.

End UwuifyResults.

(** X1: whenever the transform returns, the text it returns differs from
    the input, contains none of the letters [L], [l], [R], [r], is the
    fully or the partially transformed text, and the stored quotes are
    untouched. *)
Theorem X1_uwuify_result_changed_and_clean (q t : str) (w w' : world)
    (Hret : uwuify q w = (Ok t, w')) :
  t <> q
  /\ has_lr t = false
  /\ (t = fully_transformed q \/ t = partially_transformed q)
  /\ quotes w' = quotes w.
Proof.
  destruct (uwuify_returns q w Hret) as [(_ & -> & Hne & ->) | (_ & -> & Hne & ->)].
  - repeat split; auto using has_lr_fully_transformed.
  - repeat split; auto using has_lr_partially_transformed.
Qed.

Lemma X1_witness :
  uwuify (lit "red ruler") init = (Ok (lit "wed wuwew"), init)
  /\ lit "wed wuwew" <> lit "red ruler"
  /\ has_lr (lit "wed wuwew") = false.
Proof.
  assert (Hret : uwuify (lit "red ruler") init = (Ok (lit "wed wuwew"), init))
    by reflexivity.
  destruct (X1_uwuify_result_changed_and_clean _ _ Hret) as (Hne & Hlr & _).
  repeat split; assumption.
Defined.

(** X2: the text the transform returns is never shorter than the input
    and never longer than the larger of 50 and the input's length; so an
    input of at most 50 characters gives a result of at most 50. *)
Theorem X2_uwuify_result_length (q t : str) (w w' : world)
    (Hret : uwuify q w = (Ok t, w')) :
  len q <= len t /\ len t <= Nat.max MAX_QUOTE_LENGTH (len q).
Proof.
  destruct (uwuify_returns q w Hret) as [(Hshort & -> & _) | (_ & -> & _)].
  - split; [apply len_fully_transformed | lia].
  - rewrite len_partially_transformed; lia.
Qed.

Lemma X2_witness :
  uwuify (lit "under") init = (Ok (lit "u-undew"), init)
  /\ len (lit "under") <= len (lit "u-undew")
  /\ len (lit "u-undew") <= Nat.max MAX_QUOTE_LENGTH (len (lit "under")).
Proof.
  assert (Hret : uwuify (lit "under") init = (Ok (lit "u-undew"), init))
    by reflexivity.
  split; [exact Hret|].
  exact (X2_uwuify_result_length _ _ Hret).
Defined.

(** X3: the transform either returns or raises "Quote was not modified",
    and it raises exactly when the input has none of the letters [L],
    [l], [R], [r] and, besides, either has no piece between spaces that
    starts with [U] or [u], or has a fully transformed text of more than
    50 characters. *)
Theorem X3_uwuify_fails_iff (q : str) (w : world) :
  (fst (uwuify q w) = Raise NOT_MODIFIED
   <-> has_lr q = false
       /\ (has_u_word q = false
           \/ MAX_QUOTE_LENGTH < len (fully_transformed q)))
  /\ (forall e, fst (uwuify q w) = Raise e -> e = NOT_MODIFIED).
Proof.
  split; [|intros e; apply uwuify_errors].
  rewrite uwuify_unfold.
  destruct (Nat.ltb_spec MAX_QUOTE_LENGTH (len (fully_transformed q))) as [Hlong|Hshort];
    cbv zeta.
  - destruct (eqb _ q) eqn:E; simpl.
    + apply eqb_eq, partially_transformed_fixed in E.
      split; [intros _; split; [exact E | now right] | reflexivity].
    + apply eqb_neq in E.
      split; [discriminate|].
      intros [Hlr _]; apply partially_transformed_fixed in Hlr; contradiction.
  - destruct (eqb _ q) eqn:E; simpl.
    + apply eqb_eq, fully_transformed_fixed in E as [Hlr Hu].
      split; [intros _; split; [exact Hlr | now left] | reflexivity].
    + apply eqb_neq in E.
      split; [discriminate|].
      intros [Hlr [Hu | Hlong]]; [|unfold MAX_QUOTE_LENGTH in *; lia].
      destruct E; apply fully_transformed_fixed; now split.
Qed.

(** X4: the fully transformed text is longer than the input by exactly
    two characters for each piece, between spaces, of the partially
    transformed text that starts with [U] or [u]; the partially
    transformed text has the length of the input. *)
Theorem X4_fully_transformed_length (q : str) :
  len (partially_transformed q) = len q
  /\ len (fully_transformed q)
     = len q + 2 * List.length
                     (filter starts_with_u (split SPACE (partially_transformed q))).
Proof.
  split; [apply len_partially_transformed|].
  unfold fully_transformed.
  now rewrite len_fully_transformed_of, len_partially_transformed.
Qed.

(** X5: an uwu command whose raw quote has more than 50 characters always
    fails after the warning and stores nothing: with "Quote is too long"
    when the raw quote has one of the letters [L], [l], [R], [r], with
    "Quote was not modified" when it has none. *)
Theorem X5_uwu_command_over_limit (command : str) (w : world)
    (Huwu : startswith (lit "quote uwu") command = true)
    (Hlong : MAX_QUOTE_LENGTH < len (slice command 11 (-1))) :
  run_command command w
  = (Raise (if has_lr (slice command 11 (-1)) then TOO_LONG else NOT_MODIFIED),
     warned w).
Proof.
  rewrite (run_command_uwu command w Huwu).
  set (raw := slice command 11 (-1)) in *.
  assert (Hfull : (MAX_QUOTE_LENGTH <? len (fully_transformed raw)) = true).
  { apply Nat.ltb_lt. pose proof (len_fully_transformed raw); lia. }
  unfold bind; rewrite uwuify_unfold, Hfull; cbv zeta.
  destruct (eqb (partially_transformed raw) raw) eqn:E.
  - apply eqb_eq, partially_transformed_fixed in E; now rewrite E.
  - assert (Hlr : has_lr raw = true).
    { destruct (has_lr raw) eqn:H; [reflexivity|].
      apply partially_transformed_fixed in H; apply eqb_neq in E; contradiction. }
    rewrite Hlr; unfold add_quote.
    assert (Hp : (MAX_QUOTE_LENGTH <? len (partially_transformed raw)) = true)
      by (apply Nat.ltb_lt; now rewrite len_partially_transformed).
    now rewrite Hp.
Qed.

Lemma X5_witness :
  let command := lit "quote uwu " ++ [DQUOTE] ++ repeated LOWER_A 51 ++ [DQUOTE] in
  startswith (lit "quote uwu") command = true
  /\ MAX_QUOTE_LENGTH < len (slice command 11 (-1))
  /\ run_command command init = (Raise NOT_MODIFIED, warned init).
Proof.
  intros command.
  assert (Huwu : startswith (lit "quote uwu") command = true) by reflexivity.
  assert (Hlong : MAX_QUOTE_LENGTH < len (slice command 11 (-1)))
    by (vm_compute; lia).
  split; [exact Huwu|]. split; [exact Hlong|].
  exact (X5_uwu_command_over_limit command init Huwu Hlong).
Defined.

(** X6: an uwu command whose raw quote has at most 50 characters never
    fails with "Quote is too long": its only error is "Quote was not
    modified", raised by the transform; and when the transform returns a
    text, the command returns normally and that text is among the stored
    texts afterwards. *)
Theorem X6_uwu_command_within_limit (command : str) (w : world)
    (Huwu : startswith (lit "quote uwu") command = true)
    (Hshort : len (slice command 11 (-1)) <= MAX_QUOTE_LENGTH) :
  (forall e, fst (run_command command w) = Raise e ->
             e = NOT_MODIFIED /\ fst (uwuify (slice command 11 (-1)) w) = Raise e)
  /\ (forall t w1, uwuify (slice command 11 (-1)) w = (Ok t, w1) ->
        fst (run_command command w) = Ok tt
        /\ In t (map Quote_str (quotes (snd (run_command command w))))).
Proof.
  rewrite (run_command_uwu command w Huwu).
  set (raw := slice command 11 (-1)) in *.
  unfold bind.
  destruct (uwuify raw w) as [[t|e0] w1] eqn:Hu.
  - assert (Hlen : len t <= MAX_QUOTE_LENGTH).
    { destruct (uwuify_returns raw w Hu) as [(H & -> & _) | (_ & -> & _)];
        [exact H | now rewrite len_partially_transformed]. }
    destruct (add_quote_within_limit t UWU w1 Hlen) as [Hok Hin].
    split.
    + intros e He; rewrite Hok in He; discriminate.
    + intros t' w1' H; injection H as <- <-; now split.
  - split.
    + intros e He; simpl in He; injection He as <-.
      split; [|reflexivity].
      apply (uwuify_errors raw w); now rewrite Hu.
    + intros t w1' H; discriminate.
Qed.

Lemma X6_witness :
  let command := lit "quote uwu " ++ [DQUOTE] ++ lit "really loud" ++ [DQUOTE] in
  startswith (lit "quote uwu") command = true
  /\ len (slice command 11 (-1)) <= MAX_QUOTE_LENGTH
  /\ fst (run_command command init) = Ok tt
  /\ In (lit "weawwy woud") (map Quote_str (quotes (snd (run_command command init)))).
Proof.
  intros command.
  assert (Huwu : startswith (lit "quote uwu") command = true) by reflexivity.
  assert (Hshort : len (slice command 11 (-1)) <= MAX_QUOTE_LENGTH)
    by (vm_compute; lia).
  split; [exact Huwu|]. split; [exact Hshort|].
  destruct (X6_uwu_command_within_limit command init Huwu Hshort) as [_ Hret].
  apply (Hret (lit "weawwy woud") init); reflexivity.
Defined.

(** ** The dispatcher: which branch a command takes *)

Section Dispatch.

Lemma startswith_app_l (p r c : str) :
  startswith (p ++ r) c = true -> startswith p c = true.
Proof.
  intros H; apply startswith_prefix in H as [t ->].
  rewrite <- app_assoc; apply startswith_app.
Qed.

Lemma startswith_false_app (p r c : str) :
  startswith p c = false -> startswith (p ++ r) c = false.
Proof.
  intros H; destruct (startswith (p ++ r) c) eqn:E; [|reflexivity].
  apply startswith_app_l in E; congruence.
Qed.

Lemma endswith_last (x y : char) (s : str) :
  endswith [x] (s ++ [y]) = N.eqb x y.
Proof.
  unfold endswith; rewrite rev_app_distr; simpl.
  apply andb_true_r.
Qed.

(** After [quote ] and a quotation mark, none of the three keyword
    prefixes matches. *)
Lemma quoted_not_keyword (mark : char) (c : str) :
  mark = DQUOTE \/ mark = LDQUOTE ->
  startswith (lit "quote " ++ [mark]) c = true ->
  startswith (lit "quote uwu") c = false
  /\ startswith (lit "quote piglatin") c = false
  /\ startswith (lit "quote list") c = false.
Proof.
  intros Hm H; apply startswith_prefix in H as [t ->].
  destruct Hm as [-> | ->]; repeat split; reflexivity.
Qed.

Lemma run_command_quoted (c : str) (w : world) :
  (startswith (lit "quote " ++ [DQUOTE]) c && endswith [DQUOTE] c)
  || (startswith (lit "quote " ++ [LDQUOTE]) c && endswith [RDQUOTE] c) = true ->
  run_command c w = add_quote (slice c 7 (-1)) NORMAL w.
Proof.
  intros H.
  assert (Hk : startswith (lit "quote uwu") c = false
               /\ startswith (lit "quote piglatin") c = false
               /\ startswith (lit "quote list") c = false).
  { apply orb_true_iff in H as [H|H]; apply andb_true_iff in H as [H _].
    - apply (quoted_not_keyword (mark := DQUOTE)); auto.
    - apply (quoted_not_keyword (mark := LDQUOTE)); auto. }
  destruct Hk as (H1 & H2 & H3).
  unfold run_command; now rewrite H1, H2, H3, H.
Qed.

Lemma slice_quoted (mark close : char) (t : str) :
  slice (lit "quote " ++ [mark] ++ t ++ [close]) 7 (-1) = t.
Proof.
  rewrite (app_assoc (lit "quote ")).
  apply (slice_between (lit "quote " ++ [mark]) t close).
Qed.

End Dispatch.

(** X7: a command that starts with [quote ] and a straight quotation mark
    and ends with a straight one, or starts with [quote ] and a left curly
    mark and ends with a right curly one, is run as the addition, with
    mode NORMAL, of the command without its first 7 characters and its
    last one; nothing requires the closing mark to be another character
    than the opening one. *)
Theorem X7_quoted_command_adds_normal (command : str) (w : world)
    (Hquoted :
       (startswith (lit "quote " ++ [DQUOTE]) command && endswith [DQUOTE] command)
       || (startswith (lit "quote " ++ [LDQUOTE]) command && endswith [RDQUOTE] command)
       = true) :
  run_command command w = add_quote (removelast (skipn 7 command)) NORMAL w.
Proof.
  rewrite (run_command_quoted command w Hquoted).
  now rewrite <- (slice_drop_last command 7).
Qed.

(** The seven characters [quote ] and one straight mark: the mark opens
    and closes, and the empty quote is stored. *)
Lemma X7_witness :
  let command := lit "quote " ++ [DQUOTE] in
  (startswith (lit "quote " ++ [DQUOTE]) command && endswith [DQUOTE] command)
  || (startswith (lit "quote " ++ [LDQUOTE]) command && endswith [RDQUOTE] command)
  = true
  /\ run_command command init = (Ok tt, mkWorld [mkQuote [] NORMAL] []).
Proof.
  intros command.
  assert (Hquoted :
    (startswith (lit "quote " ++ [DQUOTE]) command && endswith [DQUOTE] command)
    || (startswith (lit "quote " ++ [LDQUOTE]) command && endswith [RDQUOTE] command)
    = true) by reflexivity.
  split; [exact Hquoted|].
  rewrite (X7_quoted_command_adds_normal command init Hquoted); reflexivity.
Defined.

(** X8: for every text, whatever characters it contains, the command
    made of [quote ], a straight quotation mark, the text and a straight
    quotation mark adds exactly that text with mode NORMAL, and so does
    the command with a left curly mark before and a right curly mark
    after the text. *)
Theorem X8_quoted_text_added_verbatim (t : str) (w : world) :
  run_command (lit "quote " ++ [DQUOTE] ++ t ++ [DQUOTE]) w = add_quote t NORMAL w
  /\ run_command (lit "quote " ++ [LDQUOTE] ++ t ++ [RDQUOTE]) w = add_quote t NORMAL w.
Proof.
  split.
  - rewrite run_command_quoted.
    + now rewrite slice_quoted.
    + apply orb_true_iff; left; apply andb_true_iff; split.
      * rewrite (app_assoc (lit "quote ")); apply startswith_app.
      * rewrite (app_assoc (lit "quote ")), (app_assoc _ t).
        now rewrite endswith_last.
  - rewrite run_command_quoted.
    + now rewrite slice_quoted.
    + apply orb_true_iff; right; apply andb_true_iff; split.
      * rewrite (app_assoc (lit "quote ")); apply startswith_app.
      * rewrite (app_assoc (lit "quote ")), (app_assoc _ t).
        now rewrite endswith_last.
Qed.

(** X9: quotation marks that do not pair are refused: for every text,
    the command with a straight mark before the text and a right curly
    mark after it, and the command with a left curly mark before and a
    straight mark after, raise "Invalid command" and change nothing. *)
Theorem X9_mismatched_marks_rejected (t : str) (w : world) :
  run_command (lit "quote " ++ [DQUOTE] ++ t ++ [RDQUOTE]) w
  = (Raise INVALID_COMMAND, w)
  /\ run_command (lit "quote " ++ [LDQUOTE] ++ t ++ [DQUOTE]) w
     = (Raise INVALID_COMMAND, w).
Proof.
  split.
  - assert (He : endswith [DQUOTE] (lit "quote " ++ [DQUOTE] ++ t ++ [RDQUOTE]) = false).
    { rewrite (app_assoc (lit "quote ")), (app_assoc _ t). now rewrite endswith_last. }
    unfold run_command; rewrite He.
    reflexivity.
  - assert (He : endswith [RDQUOTE] (lit "quote " ++ [LDQUOTE] ++ t ++ [DQUOTE]) = false).
    { rewrite (app_assoc (lit "quote ")), (app_assoc _ t). now rewrite endswith_last. }
    unfold run_command; rewrite He.
    reflexivity.
Qed.

(** X10: a command that does not start with [quote ] (the empty command
    among them) raises "Invalid command" and changes neither the store
    nor the console. *)
Theorem X10_unknown_command_rejected (command : str) (w : world)
    (Hnot : startswith (lit "quote ") command = false) :
  run_command command w = (Raise INVALID_COMMAND, w).
Proof.
  unfold run_command.
  change (lit "quote uwu") with (lit "quote " ++ lit "uwu").
  change (lit "quote piglatin") with (lit "quote " ++ lit "piglatin").
  change (lit "quote list") with (lit "quote " ++ lit "list").
  rewrite (@startswith_false_app _ (lit "uwu") _ Hnot).
  rewrite (@startswith_false_app _ (lit "piglatin") _ Hnot).
  rewrite (@startswith_false_app _ (lit "list") _ Hnot).
  rewrite (@startswith_false_app _ [DQUOTE] _ Hnot).
  rewrite (@startswith_false_app _ [LDQUOTE] _ Hnot).
  reflexivity.
Qed.

Lemma X10_witness :
  startswith (lit "quote ") [] = false
  /\ run_command [] init = (Raise INVALID_COMMAND, init)
  /\ run_command (lit "Quote list") init = (Raise INVALID_COMMAND, init).
Proof.
  assert (H1 : startswith (lit "quote ") [] = false) by reflexivity.
  assert (H2 : startswith (lit "quote ") (lit "Quote list") = false) by reflexivity.
  split; [exact H1|]. split.
  - exact (X10_unknown_command_rejected [] init H1).
  - exact (X10_unknown_command_rejected (lit "Quote list") init H2).
Defined.

(** ** [Quote._create_variant] *)

(** X11: the variant of a quote is the text of the quote itself exactly
    when the mode is NORMAL: for mode UWU the transform never returns its
    input, and for mode PIGLATIN the method always raises "Pig Latin
    variant not implemented".  The method never touches the stored
    quotes. *)
Theorem X11_create_variant_identity_iff_normal (q : Quote) (w : world) :
  (fst (create_variant q w) = Ok (quote q) <-> mode q = NORMAL)
  /\ (mode q = PIGLATIN ->
      create_variant q w
      = (Raise (NotImplementedError "Pig Latin variant not implemented"), w))
  /\ quotes (snd (create_variant q w)) = quotes w.
Proof.
  destruct q as [text m]; unfold create_variant; simpl.
  destruct m; simpl.
  - repeat split; auto; discriminate.
  - repeat split; try discriminate; [|apply uwuify_quotes].
    intros H.
    destruct (uwuify text w) as [r w'] eqn:Hu; simpl in H; subst r.
    destruct (uwuify_returns text w Hu) as [(_ & _ & Hne & _) | (_ & _ & Hne & _)];
      now destruct Hne.
  - repeat split; auto; discriminate.
Qed.

Lemma X11_witness :
  create_variant (mkQuote (lit "hi") PIGLATIN) init
  = (Raise (NotImplementedError "Pig Latin variant not implemented"), init)
  /\ fst (create_variant (mkQuote (lit "hi") NORMAL) init) = Ok (lit "hi").
Proof.
  destruct (X11_create_variant_identity_iff_normal (mkQuote (lit "hi") PIGLATIN) init)
    as (_ & Hpig & _).
  destruct (X11_create_variant_identity_iff_normal (mkQuote (lit "hi") NORMAL) init)
    as (Hnormal & _).
  split; [exact (Hpig eq_refl) | exact (proj2 Hnormal eq_refl)].
Defined.

(** ** The store under the add-quote operation and the commands *)

Section StoreFacts.

Lemma add_quote_appends (t : str) (m : VariantMode) (w : world) :
  quotes (snd (add_quote t m w)) = quotes w
  \/ (quotes (snd (add_quote t m w)) = quotes w ++ [mkQuote t m]
      /\ len t <= MAX_QUOTE_LENGTH).
Proof.
  rewrite add_quote_unfold.
  destruct (Nat.ltb_spec MAX_QUOTE_LENGTH (len t)) as [Hlong|Hshort]; [now left|].
  destruct (mem t _); [now left | right; now split].
Qed.

Lemma run_command_appends (c : str) (w : world) :
  quotes (snd (run_command c w)) = quotes w
  \/ exists q, quotes (snd (run_command c w)) = quotes w ++ [q] /\ quote_ok q.
Proof.
  unfold run_command.
  destruct (startswith (lit "quote uwu") c).
  { unfold bind.
    destruct (uwuify (slice c 11 (-1)) w) as [[t|e] w1] eqn:Hu; [|left; simpl].
    - assert (Hq : quotes w1 = quotes w)
        by (rewrite <- (uwuify_quotes (slice c 11 (-1)) w); now rewrite Hu).
      assert (Hlr : has_lr t = false).
      { destruct (uwuify_returns _ w Hu) as [(_ & -> & _) | (_ & -> & _)];
          [apply has_lr_fully_transformed | apply has_lr_partially_transformed]. }
      destruct (add_quote_appends t UWU w1) as [H | [H Hlen]]; rewrite H, Hq.
      + now left.
      + right; exists (mkQuote t UWU); split; [reflexivity|].
        repeat split; simpl; auto; discriminate.
    - rewrite <- (uwuify_quotes (slice c 11 (-1)) w); now rewrite Hu. }
  destruct (startswith (lit "quote piglatin") c); [now left|].
  destruct (startswith (lit "quote list") c); [now left|].
  match goal with |- context [if ?b then _ else _] => destruct b end; [|now left].
  destruct (add_quote_appends (slice c 7 (-1)) NORMAL w) as [H | [H Hlen]]; rewrite H.
  - now left.
  - right; exists (mkQuote (slice c 7 (-1)) NORMAL); split; [reflexivity|].
    repeat split; simpl; auto; discriminate.
Qed.

End StoreFacts.

(** X12: duplicate detection looks at the text only.  After an addition
    of a text of at most 50 characters, adding the same text again, with
    any mode, returns normally, prints the notice "Quote has already been
    added previously" and leaves the stored quotes as they are. *)
Theorem X12_second_add_is_duplicate (text : str) (m m' : VariantMode) (w : world)
    (Hlen : len text <= MAX_QUOTE_LENGTH) :
  let w1 := snd (add_quote text m w) in
  add_quote text m' w1
  = (Ok tt, mkWorld (quotes w1) (trace w1 ++ [already_added])).
Proof.
  intros w1.
  destruct (add_quote_within_limit text m w Hlen) as [_ Hin]; fold w1 in Hin.
  rewrite add_quote_unfold.
  apply Nat.ltb_ge in Hlen; rewrite Hlen.
  apply mem_In in Hin; now rewrite Hin.
Qed.

Lemma X12_witness :
  len (lit "hi") <= MAX_QUOTE_LENGTH
  /\ add_quote (lit "hi") UWU (snd (add_quote (lit "hi") NORMAL init))
     = (Ok tt, mkWorld [mkQuote (lit "hi") NORMAL] [already_added]).
Proof.
  assert (Hlen : len (lit "hi") <= MAX_QUOTE_LENGTH) by (vm_compute; lia).
  split; [exact Hlen|].
  exact (X12_second_add_is_duplicate (lit "hi") NORMAL UWU init Hlen).
Defined.

(** X13: in a store without two quotes of the same text, after the
    add-quote operation has been given a text of at most 50 characters,
    [Database.get_quotes] returns a list in which that text occurs
    exactly once, and the texts stored before are still there, in their
    order, at the front of the list. *)
Theorem X13_added_text_listed_once (text : str) (m : VariantMode) (w : world)
    (Hlen : len text <= MAX_QUOTE_LENGTH)
    (Hinv : store_invariant w) :
  let w1 := snd (add_quote text m w) in
  exists texts,
    Database.get_quotes w1 = (Ok texts, w1)
    /\ count_occ (list_eq_dec N.eq_dec) texts text = 1
    /\ (texts = map Quote_str (quotes w)
        \/ texts = map Quote_str (quotes w) ++ [text]).
Proof.
  intros w1; exists (map Quote_str (quotes w1)).
  split; [reflexivity|].
  destruct (add_quote_within_limit text m w Hlen) as [_ Hin]; fold w1 in Hin.
  assert (Hinv1 : store_invariant w1)
    by exact (store_step_invariant (add_quote_step text m w) Hinv).
  split.
  - apply NoDup_count_occ'; assumption.
  - destruct (add_quote_appends text m w) as [H | [H _]]; fold w1 in H; rewrite H.
    + now left.
    + right; now rewrite map_app.
Qed.

Lemma X13_witness :
  let w := mkWorld [mkQuote (lit "a") NORMAL] [] in
  len (lit "b") <= MAX_QUOTE_LENGTH
  /\ store_invariant w
  /\ exists texts,
       Database.get_quotes (snd (add_quote (lit "b") UWU w))
       = (Ok texts, snd (add_quote (lit "b") UWU w))
       /\ count_occ (list_eq_dec N.eq_dec) texts (lit "b") = 1.
Proof.
  intros w.
  assert (Hlen : len (lit "b") <= MAX_QUOTE_LENGTH) by (vm_compute; lia).
  assert (Hinv : store_invariant w).
  { unfold store_invariant; simpl; repeat constructor; simpl; tauto. }
  split; [exact Hlen|]. split; [exact Hinv|].
  destruct (X13_added_text_listed_once (lit "b") UWU Hlen Hinv)
    as (texts & Hget & Hcount & _).
  exists texts; split; assumption.
Defined.

(** X14: the commands keep the store well formed: if every stored quote
    has a text of at most 50 characters, a mode other than PIGLATIN and,
    when its mode is UWU, a text without the letters [L], [l], [R], [r],
    then the same holds after any command.  In particular no command
    stores a PIGLATIN quote or a text of more than 50 characters. *)
Theorem X14_commands_keep_store_well_formed (command : str) (w : world)
    (Hwf : well_formed_store w) :
  well_formed_store (snd (run_command command w)).
Proof.
  unfold well_formed_store in *.
  destruct (run_command_appends command w) as [H | (q & H & Hq)]; rewrite H.
  - exact Hwf.
  - apply Forall_app; split; [exact Hwf | now constructor].
Qed.

Lemma X14_witness :
  well_formed_store init
  /\ well_formed_store
       (snd (run_command (lit "quote uwu " ++ [DQUOTE] ++ lit "really loud" ++ [DQUOTE])
               init)).
Proof.
  assert (Hwf : well_formed_store init) by constructor.
  split; [exact Hwf|].
  exact (X14_commands_keep_store_well_formed
           (lit "quote uwu " ++ [DQUOTE] ++ lit "really loud" ++ [DQUOTE]) Hwf).
Defined.

(** ** The listing, line by line *)

Section ListingLines.

Lemma bullet_without_newline (t : str) :
  ~ In NEWLINE t -> ~ In NEWLINE (bullet t).
Proof.
  unfold bullet; intros Hn H; apply in_app_or in H as [H|H]; [|contradiction].
  simpl in H; unfold NEWLINE in H.
  destruct H as [H|[H|[]]]; discriminate.
Qed.

End ListingLines.

(** X15: when the store is not empty and no stored text contains a
    newline, the formatter returns a string whose split at the newlines is
    exactly the list of the stored texts, in order, each with [- ] in
    front: the listing can be read back line by line. *)
Theorem X15_listing_reads_back (w : world)
    (Hne : quotes w <> [])
    (Hnl : forall q, In q (quotes w) -> ~ In NEWLINE (quote q)) :
  exists s,
    list_formatted_quotes w = (Ok s, w)
    /\ split NEWLINE s = map bullet (map Quote_str (quotes w)).
Proof.
  exists (join [NEWLINE] (map bullet (map Quote_str (quotes w)))).
  split; [apply list_formatted_quotes_unfold|].
  apply split_join.
  - destruct (quotes w); [contradiction | discriminate].
  - intros l Hl.
    apply in_map_iff in Hl as (t & <- & Ht).
    apply in_map_iff in Ht as (q & <- & Hq).
    apply bullet_without_newline, Hnl, Hq.
Qed.

Lemma X15_witness :
  let w := mkWorld [mkQuote (lit "A") NORMAL; mkQuote (lit "B") UWU] [] in
  quotes w <> []
  /\ exists s,
       list_formatted_quotes w = (Ok s, w)
       /\ split NEWLINE s = [lit "- A"; lit "- B"].
Proof.
  intros w.
  assert (Hne : quotes w <> []) by discriminate.
  assert (Hnl : forall q, In q (quotes w) -> ~ In NEWLINE (quote q)).
  { intros q [<-|[<-|[]]]; simpl; unfold NEWLINE; intuition discriminate. }
  split; [exact Hne|].
  exact (@X15_listing_reads_back w Hne Hnl).
Defined.

(** A stored text with a newline takes two lines of the listing. *)
Example listing_of_text_with_newline :
  let w := mkWorld [mkQuote [97; 10; 98]%N NORMAL] [] in
  exists s, list_formatted_quotes w = (Ok s, w)
            /\ List.length (split NEWLINE s) = 2.
Proof. eexists; split; reflexivity. Qed.

(** ** Transforming a text twice *)

(** X16: a text that the transform returned after its warning, that is,
    a partially transformed text, is refused when it is transformed
    again: the second call issues the warning and raises "Quote was not
    modified". *)
Theorem X16_partial_result_is_final (q t : str) (w w1 : world)
    (Hret : uwuify q w = (Ok t, w1))
    (Hlong : MAX_QUOTE_LENGTH < len (fully_transformed q)) :
  t = partially_transformed q
  /\ forall w2, uwuify t w2 = (Raise NOT_MODIFIED, warned w2).
Proof.
  destruct (uwuify_returns q w Hret) as [(Hshort & _) | (_ & -> & _)]; [lia|].
  split; [reflexivity|]; intros w2.
  assert (Hfix : partially_transformed (partially_transformed q)
                 = partially_transformed q)
    by apply partially_transformed_fixed, has_lr_partially_transformed.
  assert (Hfull : fully_transformed (partially_transformed q) = fully_transformed q)
    by (unfold fully_transformed; now rewrite Hfix).
  apply Nat.ltb_lt in Hlong.
  rewrite uwuify_unfold, Hfull, Hlong; cbv zeta.
  now rewrite Hfix, eqb_refl.
Qed.

Lemma X16_witness :
  let q := LOWER_R :: SPACE :: LOWER_U :: repeated LOWER_A 47 in
  let t := LOWER_W :: SPACE :: LOWER_U :: repeated LOWER_A 47 in
  uwuify q init = (Ok t, warned init)
  /\ MAX_QUOTE_LENGTH < len (fully_transformed q)
  /\ uwuify t init = (Raise NOT_MODIFIED, warned init).
Proof.
  intros q t.
  assert (Hret : uwuify q init = (Ok t, warned init)) by reflexivity.
  assert (Hlong : MAX_QUOTE_LENGTH < len (fully_transformed q))
    by (vm_compute; lia).
  split; [exact Hret|]. split; [exact Hlong|].
  exact (proj2 (X16_partial_result_is_final q init Hret Hlong) init).
Defined.
